(** * AtomLog: a shallow embedding of [Atom_Log/AtomLog.cpp]

    The logger is a process-wide singleton holding an atomic threshold and
    two lookup tables.  [Logger::log] gates a message on the threshold,
    assembles one text record in an [ostringstream] and sends it to
    [std::cout] or [std::cerr].

    Conventions of the embedding:
    - [LogLevel] is the enumeration's underlying [int], so that values
      produced by a cast outside [DEBUG..ERROR] are ordinary inputs;
    - text is [string] (a sequence of bytes); [s << x] appends [x] to the
      stream contents [s];
    - the two standard streams are the bytes written to them so far;
    - the wall clock and [localtime_r] belong to the platform: a call of
      [log] receives what they return as a value of type [Now]. *)

From Stdlib Require Import ZArith String Ascii List DecimalString Lia.
From stdpp Require Import gmap strings.

Open Scope string_scope.
Open Scope Z_scope.

(** ** Text *)

Definition ESC : ascii := "027"%char.
Definition LF : ascii := "010"%char.

(** [esc "[0m"] is the C++ literal ["\033[0m"]. *)
Definition esc (code : string) : string := String ESC code.

(** [std::endl] writes one line feed (and flushes). *)
Definition endl : string := String LF EmptyString.

Declare Scope stream_scope.
Delimit Scope stream_scope with stream.
Notation "s << x" := (String.append s x)
  (at level 50, left associativity) : stream_scope.
Open Scope stream_scope.

(** [operator<<] on an integer: its decimal digits, with a sign when
    negative. *)
Definition put_int (z : Z) : string := NilZero.string_of_int (Z.to_int z).

Fixpoint fill (n : nat) (c : ascii) : string :=
  match n with
  | O => EmptyString
  | S k => String c (fill k c)
  end.

(** [std::setfill(c) << std::setw(w)] in front of one item: the item is
    right-adjusted in a field of [w] characters, never truncated. *)
Definition setw (w : nat) (c : ascii) (item : string) : string :=
  fill (w - String.length item) c << item.

(** ** The platform's clock *)

(** The members of [std::tm] that the format string reads. *)
Record tm := mk_tm {
  tm_year : Z;   (* years since 1900 *)
  tm_mon : Z;    (* 0..11 *)
  tm_mday : Z;   (* 1..31 *)
  tm_hour : Z;   (* 0..23 *)
  tm_min : Z;    (* 0..59 *)
  tm_sec : Z     (* 0..60 *)
}.

(** What one call of [log] reads from the platform: [ms_since_epoch] is
    the count of [duration_cast<milliseconds>(now.time_since_epoch())] and
    [localtime] is what [localtime_r] (or [localtime_s]) stores in [bt] for
    [to_time_t(now)]. *)
Record Now := mk_now {
  ms_since_epoch : Z;
  localtime : tm
}.

(** [std::put_time(&bt, "%Y-%m-%d %H:%M:%S")]: [%Y] is the year as a
    decimal number, the other conversions are two-digit decimal numbers. *)
Definition put_time (t : tm) : string :=
  put_int (tm_year t + 1900) << "-" << setw 2 "0" (put_int (tm_mon t + 1))
    << "-" << setw 2 "0" (put_int (tm_mday t))
    << " " << setw 2 "0" (put_int (tm_hour t))
    << ":" << setw 2 "0" (put_int (tm_min t))
    << ":" << setw 2 "0" (put_int (tm_sec t)).

(** ** LogLevel *)

Module LogLevel.

Definition DEBUG : Z := 0.
Definition INFO : Z := 1.
Definition WARN : Z := 2.
Definition ERROR : Z := 3.

End LogLevel.
Import LogLevel.

(** ** Logger *)

Record Logger := mk_Logger {
  log_level_ : Z;
  level_strings_ : gmap Z string;
  colors_ : gmap Z string
}.

(** The two standard streams: everything written so far. *)
Record Streams := mk_Streams {
  cout : string;
  cerr : string
}.

(** The private constructor: the threshold's default member initialiser is
    [INFO]; the tables are filled with [operator[]] in source order. *)
Definition Logger_new : Logger :=
  {| log_level_ := INFO;
     level_strings_ :=
       <[DEBUG := "DEBUG"]> (<[ERROR := "ERROR"]>
         (<[WARN := "WARN"]> (<[INFO := "INFO"]> ∅)));
     colors_ :=
       <[ERROR := esc "[31m"]> (<[WARN := esc "[33m"]>
         (<[DEBUG := esc "[36m"]> (<[INFO := esc "[0m"]> ∅))) |}.

Definition set_log_level (this : Logger) (level : Z) : Logger :=
  {| log_level_ := level;
     level_strings_ := level_strings_ this;
     colors_ := colors_ this |}.

Definition level_to_string (this : Logger) (level : Z) : string :=
  match level_strings_ this !! level with
  | Some name => name
  | None => "UNKNOWN"
  end.

Definition level_to_color (this : Logger) (level : Z) : string :=
  match colors_ this !! level with
  | Some color => color
  | None => esc "[0m"
  end.

(** [Logger::log], statement by statement; [stream] is the contents of
    the [ostringstream].  [%] on durations truncates towards zero, hence
    [Z.rem].  [setw] holds for the next item only, and the fill character,
    which stays set, matters to no later item since their width is 0.  A
    null [file] is [None].  The member function is not [const]: the logger
    it leaves behind is returned next to the streams. *)
Definition log (this : Logger) (now : Now) (level : Z) (message : string)
    (file : option string) (line : Z) (io : Streams) : Logger * Streams :=
  if level <? log_level_ this then (this, io)
  else
    let ms := Z.rem (ms_since_epoch now) 1000 in
    let bt := localtime now in
    let stream := EmptyString in
    let stream := stream << put_time bt in
    let stream := stream << "." << setw 3 "0" (put_int ms) in
    let stream := stream << " [" << level_to_string this level << "] " in
    let stream := stream << message in
    let stream :=
      match WARN <=? level, file, 0 <? line with
      | true, Some f, true =>
          stream << " [at " << f << ":" << put_int line << "]"
      | _, _, _ => stream
      end in
    if WARN <=? level
    then (this,
          {| cout := cout io;
             cerr := cerr io << level_to_color this level << stream
                       << esc "[0m" << endl |})
    else (this,
          {| cout := cout io << stream << endl;
             cerr := cerr io |}).

(** ** The process and the macros *)

(** [Logger::instance()] holds a function-local static: the logger does not
    exist until the first call. *)
Record Process := mk_Process {
  logger : option Logger;
  io : Streams
}.

Definition startup : Process :=
  {| logger := None; io := {| cout := EmptyString; cerr := EmptyString |} |}.

Definition instance (p : Process) : Logger :=
  match logger p with
  | Some lg => lg
  | None => Logger_new
  end.

(** A member call on [Logger::instance()]. *)
Definition on_instance (f : Logger -> Streams -> Logger * Streams)
    (p : Process) : Process :=
  let (lg, io') := f (instance p) (io p) in
  {| logger := Some lg; io := io' |}.

Definition SET_LOG_LEVEL (level : Z) : Process -> Process :=
  on_instance (fun this io => (set_log_level this level, io)).

(** [__FILE__] and [__LINE__] at the place a macro is expanded; line
    numbers start at 1. *)
Record CallSite := mk_CallSite {
  FILE_ : string;
  LINE_ : positive
}.

Definition LOG_INFO (msg : string) (now : Now) : Process -> Process :=
  on_instance (fun this => log this now INFO msg None 0).

Definition LOG_DEBUG (msg : string) (now : Now) : Process -> Process :=
  on_instance (fun this => log this now DEBUG msg None 0).

Definition LOG_WARN (msg : string) (at_ : CallSite) (now : Now)
    : Process -> Process :=
  on_instance (fun this =>
    log this now WARN msg (Some (FILE_ at_)) (Z.pos (LINE_ at_))).

Definition LOG_ERROR (msg : string) (at_ : CallSite) (now : Now)
    : Process -> Process :=
  on_instance (fun this =>
    log this now ERROR msg (Some (FILE_ at_)) (Z.pos (LINE_ at_))).

Definition LOG_CUSTOM (level : Z) (msg : string) (now : Now)
    : Process -> Process :=
  on_instance (fun this => log this now level msg None 0).

Definition LOG_CRITICAL (msg : string) (at_ : CallSite) (now : Now)
    : Process -> Process :=
  on_instance (fun this =>
    log this now ERROR (esc "[1;31mCRITICAL:" << esc "[0m " << msg)
      (Some (FILE_ at_)) (Z.pos (LINE_ at_))).

Definition LOG_IF (condition : bool) (level : Z) (msg : string) (now : Now)
    (p : Process) : Process :=
  if condition then on_instance (fun this => log this now level msg None 0) p
  else p.

(** ** Sequences of calls *)

(** Every macro expands to one member call on the singleton: either
    [set_log_level] or [log]. *)
Inductive Call :=
| Call_set_log_level (level : Z)
| Call_log (level : Z) (message : string) (file : option string) (line : Z)
    (now : Now).

Definition call (c : Call) : Process -> Process :=
  match c with
  | Call_set_log_level level => SET_LOG_LEVEL level
  | Call_log level message file line now =>
      on_instance (fun this => log this now level message file line)
  end.

Definition run (history : list Call) (p : Process) : Process :=
  fold_left (fun q c => call c q) history p.

Definition is_log (c : Call) : bool :=
  match c with
  | Call_set_log_level _ => false
  | Call_log _ _ _ _ _ => true
  end.

(** The argument of the last [set_log_level] in [history], [T] when there
    is none. *)
Definition last_level (T : Z) (history : list Call) : Z :=
  fold_left
    (fun t c => match c with Call_set_log_level level => level | _ => t end)
    history T.

(** The logger a program can hold: the constructed one with its threshold
    set to [T]. *)
Definition at_level (T : Z) : Logger := set_log_level Logger_new T.

(** ** Vocabulary of the statements *)

(** The parts of the line [log] assembles, named for the statements: the
    time field, the location suffix and the whole line. *)
Definition timestamp (now : Now) : string :=
  put_time (localtime now)
    << "." << setw 3 "0" (put_int (Z.rem (ms_since_epoch now) 1000)).

Definition location (level : Z) (file : option string) (line : Z) : string :=
  match (WARN <=? level)%Z, file, (0 <? line)%Z with
  | true, Some f, true => " [at " << f << ":" << put_int line << "]"
  | _, _, _ => EmptyString
  end.

Definition assemble (this : Logger) (now : Now) (level : Z)
    (message : string) (file : option string) (line : Z) : string :=
  timestamp now << " [" << level_to_string this level << "] "
    << message << location level file line.

Fixpoint count_char (c : ascii) (s : string) : nat :=
  match s with
  | EmptyString => O
  | String a rest => ((if Ascii.eqb a c then 1 else 0) + count_char c rest)%nat
  end.

(** [text] is exactly one line: its only line feed is its last byte. *)
Definition is_line (text : string) : Prop :=
  exists body, text = body << endl /\ count_char LF body = O.

Definition is_digit (c : ascii) : bool :=
  match c with
  | "0" | "1" | "2" | "3" | "4" | "5" | "6" | "7" | "8" | "9" => true
  | _ => false
  end%char.

(** The characters [operator<<] can print for an integer. *)
Definition is_numeric (c : ascii) : bool :=
  is_digit c || Ascii.eqb c "-".

Fixpoint all_chars (P : ascii -> bool) (s : string) : bool :=
  match s with
  | EmptyString => true
  | String a rest => P a && all_chars P rest
  end.

(** [has_format fmt s]: [s] has the length of [fmt], with a decimal digit
    wherever [fmt] has one of the letters [Y M D H S m] and the character of
    [fmt] everywhere else. *)
Definition is_field_letter (c : ascii) : bool :=
  match c with
  | "Y" | "M" | "D" | "H" | "S" | "m" => true
  | _ => false
  end%char.

Fixpoint has_format (fmt s : string) : bool :=
  match fmt, s with
  | EmptyString, EmptyString => true
  | String f fmt', String c s' =>
      (if is_field_letter f then is_digit c else Ascii.eqb f c)
      && has_format fmt' s'
  | _, _ => false
  end.

Definition digit (n : Z) : ascii := ascii_of_nat (48 + Z.to_nat (n mod 10)).

(** [n] written with exactly [k] decimal digits, leading zeros included. *)
Fixpoint digits (k : nat) (n : Z) : string :=
  match k with
  | O => EmptyString
  | S k' => digits k' (n / 10) << String (digit n) EmptyString
  end.

(** The fields of the timestamp, digit by digit, as the format
    [YYYY-MM-DD HH:MM:SS.mmm] asks for them. *)
Definition stamp_of (now : Now) : string :=
  let t := localtime now in
  digits 4 (tm_year t + 1900) << "-" << digits 2 (tm_mon t + 1)
    << "-" << digits 2 (tm_mday t)
    << " " << digits 2 (tm_hour t)
    << ":" << digits 2 (tm_min t)
    << ":" << digits 2 (tm_sec t)
    << "." << digits 3 (ms_since_epoch now mod 1000).

(** What POSIX promises about the members [localtime_r] stores, for a year
    of four digits. *)
Definition tm_in_range (t : tm) : Prop :=
  1000 <= tm_year t + 1900 <= 9999 /\
  0 <= tm_mon t <= 11 /\
  1 <= tm_mday t <= 31 /\
  0 <= tm_hour t <= 23 /\
  0 <= tm_min t <= 59 /\
  0 <= tm_sec t <= 60.

(** ** Sample inputs *)

(** 2026-10-30 04:41:07.123 local time. *)
Definition sample_now : Now :=
  {| ms_since_epoch := 1793335267123;
     localtime := {| tm_year := 126; tm_mon := 9; tm_mday := 30;
                     tm_hour := 4; tm_min := 41; tm_sec := 7 |} |}.

Definition sample_site : CallSite := {| FILE_ := "main.cpp"; LINE_ := 174 |}.

Definition two_lines : string := "a" << endl << "b".

(** Five milliseconds before the epoch, in a zone on UTC:
    1969-12-31 23:59:59.995. *)
Definition sample_before_epoch : Now :=
  {| ms_since_epoch := -5;
     localtime := {| tm_year := 69; tm_mon := 11; tm_mday := 31;
                     tm_hour := 23; tm_min := 59; tm_sec := 59 |} |}.

(** [n] copies of [text], one after the other. *)
Fixpoint copies (n : nat) (text : string) : string :=
  match n with
  | O => EmptyString
  | S k => copies k text << text
  end.

(** ** The demo *)

(** [main]: the seven macro calls of the demo, in source order, each with
    the clock reading it would take; [FILE] is [__FILE__] and the line
    numbers are those of the calls in the source. *)
Definition main (FILE : string) (clock : nat -> Now) (p : Process) : Process :=
  let p := LOG_DEBUG "This debug message won't be shown" (clock 0%nat) p in
  let p := LOG_INFO "This info message won't be shown" (clock 1%nat) p in
  let p := LOG_WARN "Disk space below 20%"
             {| FILE_ := FILE; LINE_ := 174 |} (clock 2%nat) p in
  let p := LOG_ERROR "Failed to open config file"
             {| FILE_ := FILE; LINE_ := 177 |} (clock 3%nat) p in
  let p := LOG_CUSTOM WARN "Custom warning: Network latency high"
             (clock 4%nat) p in
  let p := LOG_CRITICAL "System overheating!"
             {| FILE_ := FILE; LINE_ := 183 |} (clock 5%nat) p in
  let retry := 3 in
  LOG_IF (retry >? 2) ERROR
    ("Exceeded max retry attempts: " << put_int retry) (clock 6%nat) p.

(** ** Vocabulary of the further statements *)

(** What one call of [log] writes, taken on empty streams. *)
Definition written (this : Logger) (now : Now) (level : Z) (message : string)
    (file : option string) (line : Z) : Streams :=
  snd (log this now level message file line
         {| cout := EmptyString; cerr := EmptyString |}).

(** The threshold after a call made at threshold [T]. *)
Definition next_level (T : Z) (c : Call) : Z :=
  match c with
  | Call_set_log_level level => level
  | Call_log _ _ _ _ _ => T
  end.

(** The number of calls of [history] that pass the filter, the threshold
    being [T] at its start. *)
Fixpoint emitted (T : Z) (history : list Call) : nat :=
  match history with
  | nil => O
  | c :: rest =>
      let one :=
        match c with
        | Call_set_log_level _ => O
        | Call_log level _ _ _ _ => if level <? T then O else 1%nat
        end in
      (one + emitted (next_level T c) rest)%nat
  end.

(** Neither the message nor the file name of the call holds a line feed. *)
Definition single_line (c : Call) : Prop :=
  match c with
  | Call_set_log_level _ => True
  | Call_log _ message file _ _ =>
      count_char LF message = O /\
      forall f, file = Some f -> count_char LF f = O
  end.

(** The calls that can reach the standard stream, and those that can reach
    the error stream; [set_log_level] matters to both. *)
Definition for_cout (c : Call) : bool :=
  match c with
  | Call_set_log_level _ => true
  | Call_log level _ _ _ _ => level <? WARN
  end.

Definition for_cerr (c : Call) : bool :=
  match c with
  | Call_set_log_level _ => true
  | Call_log level _ _ _ _ => WARN <=? level
  end.

(** * Properties *)

(** ** Text *)

#[local] Arguments String.append !s1 s2 : simpl nomatch.

Lemma append_assoc (a b c : string) : a << b << c = a << (b << c).
Proof. induction a as [|x a IH]; simpl; [reflexivity | now rewrite IH]. Qed.

Lemma append_nil_r (a : string) : a << EmptyString = a.
Proof. induction a as [|x a IH]; simpl; [reflexivity | now rewrite IH]. Qed.

Lemma count_char_append (c : ascii) (a b : string) :
  count_char c (a << b) = (count_char c a + count_char c b)%nat.
Proof.
  induction a as [|x a IH]; simpl; [reflexivity |].
  rewrite IH. lia.
Qed.

Lemma all_chars_count (P : ascii -> bool) (c : ascii) (s : string) :
  all_chars P s = true -> P c = false -> count_char c s = O.
Proof.
  intros Hs Hc. induction s as [|a s IH]; simpl in *; [reflexivity |].
  apply andb_prop in Hs as [Ha Hs].
  destruct (Ascii.eqb_spec a c) as [->|_]; [congruence |].
  now rewrite IH.
Qed.

Lemma string_of_uint_numeric (d : Decimal.uint) :
  all_chars is_numeric (NilEmpty.string_of_uint d) = true.
Proof. induction d; simpl; auto. Qed.

(** An integer prints as digits behind an optional sign. *)
Lemma put_int_numeric (z : Z) : all_chars is_numeric (put_int z) = true.
Proof.
  assert (Hu : forall d, all_chars is_numeric (NilZero.string_of_uint d) = true).
  { intros d. unfold NilZero.string_of_uint.
    destruct d; try apply string_of_uint_numeric; reflexivity. }
  unfold put_int, NilZero.string_of_int.
  destruct (Z.to_int z) as [d|d]; [apply Hu |].
  simpl. apply Hu.
Qed.

Lemma fill_count (c d : ascii) (n : nat) :
  c <> d -> count_char d (fill n c) = O.
Proof.
  intros Hcd. induction n as [|n IH]; simpl; [reflexivity |].
  destruct (Ascii.eqb_spec c d); [contradiction | exact IH].
Qed.

(** A field printed by [setw] holds no byte other than the fill character,
    digits and the sign. *)
Lemma setw_count (w : nat) (c d : ascii) (z : Z) :
  c <> d -> is_numeric d = false -> count_char d (setw w c (put_int z)) = O.
Proof.
  intros Hcd Hd. unfold setw.
  rewrite count_char_append, fill_count by assumption.
  now rewrite (all_chars_count is_numeric d _ (put_int_numeric z)).
Qed.

Lemma count_char_other (c d : ascii) :
  c <> d -> count_char d (String c EmptyString) = O.
Proof.
  intros Hcd. unfold count_char.
  destruct (Ascii.eqb_spec c d); [contradiction | reflexivity].
Qed.

Lemma timestamp_count (d : ascii) (now : Now) :
  is_numeric d = false -> d <> "0"%char -> d <> " "%char -> d <> ":"%char ->
  d <> "."%char -> count_char d (timestamp now) = O.
Proof.
  intros Hd H0 Hsp Hco Hdot.
  assert (Hz : "0"%char <> d) by congruence.
  assert (Hminus : "-"%char <> d).
  { intros <-. discriminate Hd. }
  unfold timestamp, put_time.
  repeat rewrite count_char_append.
  repeat rewrite setw_count by assumption.
  rewrite (all_chars_count is_numeric d _ (put_int_numeric _)) by assumption.
  repeat rewrite count_char_other by congruence.
  reflexivity.
Qed.

Lemma timestamp_no_LF (now : Now) : count_char LF (timestamp now) = O.
Proof. apply timestamp_count; [reflexivity | discriminate ..]. Qed.

Lemma timestamp_no_ESC (now : Now) : count_char ESC (timestamp now) = O.
Proof. apply timestamp_count; [reflexivity | discriminate ..]. Qed.

(** ** The lookup tables *)

(** One entry of a table built by successive [operator[]] assignments. *)
Ltac lookup_step L :=
  let H := fresh "Hkey" in
  rewrite lookup_insert; case_decide as H;
  [subst L; reflexivity
  |apply Z.eqb_neq in H; rewrite (Z.eqb_sym L), H; clear H].

Lemma level_to_string_at (T L : Z) :
  level_to_string (at_level T) L =
  if L =? DEBUG then "DEBUG"
  else if L =? ERROR then "ERROR"
  else if L =? WARN then "WARN"
  else if L =? INFO then "INFO"
  else "UNKNOWN".
Proof.
  unfold level_to_string, at_level, set_log_level, Logger_new; simpl.
  repeat lookup_step L.
  reflexivity.
Qed.

Lemma level_to_color_at (T L : Z) :
  level_to_color (at_level T) L =
  if L =? ERROR then esc "[31m"
  else if L =? WARN then esc "[33m"
  else if L =? DEBUG then esc "[36m"
  else esc "[0m".
Proof.
  unfold level_to_color, at_level, set_log_level, Logger_new; simpl.
  repeat lookup_step L.
  rewrite lookup_insert. case_decide; reflexivity.
Qed.

Lemma level_to_string_count (d : ascii) (T L : Z) :
  count_char d "DEBUGINFOWARNERRORUNKNOWN" = O ->
  count_char d (level_to_string (at_level T) L) = O.
Proof.
  intros Hd. rewrite level_to_string_at.
  assert (Hsplit :
    "DEBUGINFOWARNERRORUNKNOWN" = "DEBUG" << "INFO" << "WARN" << "ERROR" << "UNKNOWN")
    by reflexivity.
  rewrite Hsplit in Hd. repeat rewrite count_char_append in Hd.
  repeat case_match; lia.
Qed.

Lemma level_to_color_esc (T L : Z) :
  exists code, level_to_color (at_level T) L = esc code.
Proof. rewrite level_to_color_at. repeat case_match; eexists; reflexivity. Qed.

Lemma level_to_color_no_LF (T L : Z) :
  count_char LF (level_to_color (at_level T) L) = O.
Proof. rewrite level_to_color_at. repeat case_match; reflexivity. Qed.

Lemma put_int_count (d : ascii) (z : Z) :
  is_numeric d = false -> count_char d (put_int z) = O.
Proof. intros Hd. exact (all_chars_count is_numeric d _ (put_int_numeric z) Hd). Qed.

(** ** The location suffix *)

Lemma location_some (level : Z) (f : string) (line : Z) :
  WARN <= level -> 0 < line ->
  location level (Some f) line = " [at " << f << ":" << put_int line << "]".
Proof.
  intros Hl Hn. unfold location.
  apply Z.leb_le in Hl. apply Z.ltb_lt in Hn. now rewrite Hl, Hn.
Qed.

Lemma location_none (level : Z) (file : option string) (line : Z) :
  ~ (WARN <= level /\ file <> None /\ 0 < line) ->
  location level file line = EmptyString.
Proof.
  intros Hno. unfold location.
  destruct (Z.leb_spec WARN level) as [Hl|Hl]; [| reflexivity].
  destruct file as [f|]; [| reflexivity].
  destruct (Z.ltb_spec 0 line) as [Hn|Hn]; [| reflexivity].
  exfalso. apply Hno. repeat split; [assumption | discriminate | assumption].
Qed.

Lemma location_count_LF (level : Z) (file : option string) (line : Z) :
  (forall f, file = Some f -> count_char LF f = O) ->
  count_char LF (location level file line) = O.
Proof.
  intros Hf. unfold location.
  destruct (WARN <=? level); [| reflexivity].
  destruct file as [f|]; [| reflexivity].
  destruct (0 <? line); [| reflexivity].
  repeat rewrite count_char_append.
  rewrite (Hf f eq_refl), put_int_count by reflexivity. reflexivity.
Qed.

(** ** [Logger::log], branch by branch *)

(** Comparisons between the enumerators and a fixed threshold. *)
Ltac level_order :=
  unfold at_level, set_log_level, DEBUG, INFO, WARN, ERROR in *;
  cbn [log_level_] in *; lia.


(** The statements of [log] put together: what is in [stream] when it is
    written is [assemble]. *)
Lemma log_unfold (this : Logger) (now : Now) (L : Z) (msg : string)
    (file : option string) (line : Z) (io : Streams) :
  log this now L msg file line io =
  if L <? log_level_ this then (this, io)
  else if WARN <=? L
  then (this,
        {| cout := cout io;
           cerr := cerr io << level_to_color this L
                     << assemble this now L msg file line << esc "[0m" << endl |})
  else (this,
        {| cout := cout io << assemble this now L msg file line << endl;
           cerr := cerr io |}).
Proof.
  assert (Hstream :
    match WARN <=? L, file, 0 <? line with
    | true, Some f, true =>
        EmptyString << put_time (localtime now)
          << "." << setw 3 "0" (put_int (Z.rem (ms_since_epoch now) 1000))
          << " [" << level_to_string this L << "] " << msg
          << " [at " << f << ":" << put_int line << "]"
    | _, _, _ =>
        EmptyString << put_time (localtime now)
          << "." << setw 3 "0" (put_int (Z.rem (ms_since_epoch now) 1000))
          << " [" << level_to_string this L << "] " << msg
    end = assemble this now L msg file line).
  { unfold assemble, timestamp, location.
    destruct (WARN <=? L), file, (0 <? line);
      repeat rewrite append_assoc; rewrite ?append_nil_r; reflexivity. }
  unfold log. cbv zeta. rewrite Hstream. reflexivity.
Qed.

Lemma log_suppressed (this : Logger) (now : Now) (L : Z) (msg : string)
    (file : option string) (line : Z) (io : Streams) :
  L < log_level_ this -> log this now L msg file line io = (this, io).
Proof. intros H. rewrite log_unfold. apply Z.ltb_lt in H. now rewrite H. Qed.

Lemma log_to_cerr (this : Logger) (now : Now) (L : Z) (msg : string)
    (file : option string) (line : Z) (io : Streams) :
  log_level_ this <= L -> WARN <= L ->
  log this now L msg file line io =
  (this,
   {| cout := cout io;
      cerr := cerr io << level_to_color this L
                << assemble this now L msg file line << esc "[0m" << endl |}).
Proof.
  intros HT HW. rewrite log_unfold.
  apply Z.ltb_ge in HT. apply Z.leb_le in HW. now rewrite HT, HW.
Qed.

Lemma log_to_cout (this : Logger) (now : Now) (L : Z) (msg : string)
    (file : option string) (line : Z) (io : Streams) :
  log_level_ this <= L -> L < WARN ->
  log this now L msg file line io =
  (this,
   {| cout := cout io << assemble this now L msg file line << endl;
      cerr := cerr io |}).
Proof.
  intros HT HW. rewrite log_unfold.
  apply Z.ltb_ge in HT. apply Z.leb_gt in HW. now rewrite HT, HW.
Qed.

(** Below [WARN] the guard of the location suffix is false. *)
Lemma location_below_WARN (L : Z) (file : option string) (line : Z) :
  L < WARN -> location L file line = EmptyString.
Proof. intros H. apply location_none. lia. Qed.

(** ** Filtering and the emitted record *)

(** C1 (as amended).  For every level [L] and threshold [T]: below the
    threshold [log] writes nothing; at or above it [log] appends to exactly
    one stream one record closed by one line feed, holding the timestamp,
    the bracketed level name and the message verbatim.  The record has as
    many line feeds as the message and an appended file name hold, plus the
    closing one; it is one line when they hold none. *)
Theorem log_filter_and_record (T L : Z) (now : Now) (msg : string)
    (file : option string) (line : Z) (io : Streams) :
  let this := at_level T in
  let text :=
    (if WARN <=? L then level_to_color this L else EmptyString)
      << timestamp now << " [" << level_to_string this L << "] " << msg
      << location L file line
      << (if WARN <=? L then esc "[0m" else EmptyString) << endl in
  (L < T -> log this now L msg file line io = (this, io)) /\
  (T <= L ->
     snd (log this now L msg file line io) =
       (if WARN <=? L
        then {| cout := cout io; cerr := cerr io << text |}
        else {| cout := cout io << text; cerr := cerr io |}) /\
     count_char LF text =
       (1 + count_char LF msg + count_char LF (location L file line))%nat /\
     (count_char LF msg = O ->
      (forall f, file = Some f -> count_char LF f = O) -> is_line text)).
Proof.
  intros this text. subst this.
  assert (Hcount : count_char LF text =
    (1 + count_char LF msg + count_char LF (location L file line))%nat).
  { subst text. repeat rewrite count_char_append.
    rewrite timestamp_no_LF, level_to_string_count by reflexivity.
    assert (Hopen : count_char LF " [" = O) by reflexivity.
    assert (Hclose : count_char LF "] " = O) by reflexivity.
    assert (Hreset : count_char LF (esc "[0m") = O) by reflexivity.
    assert (Hendl : count_char LF endl = 1%nat) by reflexivity.
    assert (Hnil : count_char LF EmptyString = O) by reflexivity.
    rewrite Hopen, Hclose, Hendl.
    destruct (WARN <=? L).
    - rewrite level_to_color_no_LF, Hreset. lia.
    - rewrite Hnil. lia. }
  split.
  - intros H. now apply log_suppressed.
  - intros H. split; [| split].
    + subst text. destruct (Z.leb_spec WARN L) as [HW|HW].
      * rewrite log_to_cerr by assumption. cbn [snd]. f_equal.
        unfold assemble. repeat rewrite append_assoc. reflexivity.
      * rewrite log_to_cout by assumption. cbn [snd]. f_equal.
        unfold assemble. repeat rewrite append_assoc. reflexivity.
    + exact Hcount.
    + intros Hmsg Hfile.
      rewrite Hmsg, (location_count_LF L file line Hfile) in Hcount.
      subst text. eexists. split; [reflexivity |].
      rewrite count_char_append in Hcount.
      change (count_char LF endl) with 1%nat in Hcount. lia.
Qed.

Lemma log_filter_and_record_witness :
  log (at_level INFO) sample_now DEBUG "x" None 0 (io startup)
    = (at_level INFO, io startup) /\
  is_line (cout (snd (log (at_level INFO) sample_now INFO "y" None 0 (io startup)))).
Proof.
  split.
  - apply (log_filter_and_record INFO DEBUG sample_now "x" None 0 (io startup)).
    reflexivity.
  - destruct (log_filter_and_record INFO INFO sample_now "y" None 0 (io startup))
      as [_ Hemit].
    destruct Hemit as (_ & _ & Hline); [discriminate |].
    apply Hline; [reflexivity | discriminate].
Defined.

(** C1, as stated, fails for a message that holds a line feed: the record
    [log] writes for it at a passing level is two lines, not one. *)
Lemma log_multiline_message_not_one_line :
  INFO >= log_level_ (at_level INFO) /\
  count_char LF
    (cout (snd (log (at_level INFO) sample_now INFO two_lines None 0 (io startup))))
    = 2%nat /\
  ~ is_line
      (cout (snd (log (at_level INFO) sample_now INFO two_lines None 0 (io startup)))).
Proof.
  split; [discriminate | split; [reflexivity |]].
  intros [body [Hbody Hnone]].
  apply (f_equal (count_char LF)) in Hbody.
  rewrite count_char_append, Hnone in Hbody.
  discriminate Hbody.
Qed.

(** ** Routing *)

Lemma assemble_count_ESC_below_WARN (T L : Z) (now : Now) (msg : string)
    (file : option string) (line : Z) :
  L < WARN ->
  count_char ESC (assemble (at_level T) now L msg file line << endl)
    = count_char ESC msg.
Proof.
  intros HW. unfold assemble.
  rewrite location_below_WARN by assumption.
  repeat rewrite count_char_append.
  rewrite timestamp_no_ESC, level_to_string_count by reflexivity.
  assert (Hopen : count_char ESC " [" = O) by reflexivity.
  assert (Hclose : count_char ESC "] " = O) by reflexivity.
  assert (Hendl : count_char ESC endl = O) by reflexivity.
  assert (Hnil : count_char ESC EmptyString = O) by reflexivity.
  rewrite Hopen, Hclose, Hendl, Hnil. lia.
Qed.

(** C2.  For every emitted message ([T <= L]): at [WARN] or above the
    assembled line goes to the error stream between the level's colour
    escape, which is not empty, and the reset escape, and the standard
    stream is left alone; below [WARN] the assembled line goes to the
    standard stream as it is, the logger adding no escape byte to the
    message's own, and the error stream is left alone. *)
Theorem log_routing (T L : Z) (now : Now) (msg : string)
    (file : option string) (line : Z) (io : Streams) :
  T <= L ->
  let this := at_level T in
  let assembled := assemble this now L msg file line in
  (WARN <= L ->
     (exists code, level_to_color this L = esc code) /\
     level_to_color this L <> EmptyString /\
     snd (log this now L msg file line io) =
       {| cout := cout io;
          cerr := cerr io << level_to_color this L << assembled
                    << esc "[0m" << endl |}) /\
  (L < WARN ->
     snd (log this now L msg file line io) =
       {| cout := cout io << assembled << endl; cerr := cerr io |} /\
     count_char ESC (assembled << endl) = count_char ESC msg).
Proof.
  intros HT this assembled. subst this assembled. split.
  - intros HW. destruct (level_to_color_esc T L) as [code Hcode].
    split; [now exists code | split].
    + rewrite Hcode. discriminate.
    + now rewrite log_to_cerr.
  - intros HW. split.
    + now rewrite log_to_cout.
    + now apply assemble_count_ESC_below_WARN.
Qed.

Lemma log_routing_witness :
  snd (log (at_level INFO) sample_now WARN "z" (Some "main.cpp") 174 (io startup))
    = {| cout := EmptyString;
         cerr := esc "[33m" << "2026-10-30 04:41:07.123 [WARN] z [at main.cpp:174]"
                   << esc "[0m" << endl |}.
Proof.
  destruct (log_routing INFO WARN sample_now "z" (Some "main.cpp") 174 (io startup))
    as [Herr _]; [discriminate |].
  destruct Herr as (_ & _ & Hout); [discriminate |].
  exact Hout.
Defined.

(** ** The location suffix, on the output *)

(** C3.  For every call of [log] that is emitted, ` [at <file>:<line>]`
    follows the message exactly when the level is [WARN] or higher, a file
    was supplied and the line is positive; in every other case the message
    is the last item of the assembled line. *)
Theorem location_suffix_iff (this : Logger) (now : Now) (L : Z) (msg : string)
    (file : option string) (line : Z) (io : Streams) :
  log_level_ this <= L ->
  let head := timestamp now << " [" << level_to_string this L << "] " << msg in
  (location L file line <> EmptyString
     <-> WARN <= L /\ file <> None /\ 0 < line) /\
  (forall f, WARN <= L -> file = Some f -> 0 < line ->
     snd (log this now L msg file line io) =
       {| cout := cout io;
          cerr := cerr io << level_to_color this L << head
                    << " [at " << f << ":" << put_int line << "]"
                    << esc "[0m" << endl |}) /\
  (~ (WARN <= L /\ file <> None /\ 0 < line) ->
     snd (log this now L msg file line io) =
       if WARN <=? L
       then {| cout := cout io;
               cerr := cerr io << level_to_color this L << head
                         << esc "[0m" << endl |}
       else {| cout := cout io << head << endl; cerr := cerr io |}).
Proof.
  intros HT head. subst head. split; [| split].
  - split.
    + intros Hsome.
      destruct (Z.leb_spec WARN L) as [HW|HW], file as [f|],
        (Z.ltb_spec 0 line) as [Hn|Hn];
        try (repeat split; [assumption | discriminate | assumption]);
        contradiction Hsome; apply location_none;
        intros (H1 & H2 & H3); solve [lia | congruence].
    + intros (HW & Hfile & Hn). destruct file as [f|]; [| contradiction].
      rewrite location_some by assumption. discriminate.
  - intros f HW -> Hn. rewrite log_to_cerr by assumption. cbn [snd].
    unfold assemble. rewrite location_some by assumption.
    f_equal. repeat rewrite append_assoc. reflexivity.
  - intros Hno. destruct (Z.leb_spec WARN L) as [HW|HW].
    + rewrite log_to_cerr by assumption. cbn [snd].
      unfold assemble. rewrite location_none by assumption.
      now rewrite append_nil_r.
    + rewrite log_to_cout by assumption. cbn [snd].
      unfold assemble. rewrite location_none by assumption.
      now rewrite append_nil_r.
Qed.

Lemma location_suffix_iff_witness :
  snd (log (at_level INFO) sample_now ERROR "w" (Some "f.ext") 42 (io startup))
    = {| cout := EmptyString;
         cerr := esc "[31m" << "2026-10-30 04:41:07.123 [ERROR] w [at f.ext:42]"
                   << esc "[0m" << endl |} /\
  snd (log (at_level INFO) sample_now ERROR "w" (Some "f.ext") 0 (io startup))
    = {| cout := EmptyString;
         cerr := esc "[31m" << "2026-10-30 04:41:07.123 [ERROR] w"
                   << esc "[0m" << endl |}.
Proof.
  split.
  - destruct (location_suffix_iff (at_level INFO) sample_now ERROR "w"
                (Some "f.ext") 42 (io startup)) as (_ & Hyes & _);
      [discriminate |].
    apply (Hyes "f.ext"); [discriminate | reflexivity | reflexivity].
  - destruct (location_suffix_iff (at_level INFO) sample_now ERROR "w"
                (Some "f.ext") 0 (io startup)) as (_ & _ & Hno);
      [discriminate |].
    apply Hno. intros (_ & _ & Hline). discriminate Hline.
Defined.

(** ** The timestamp *)

Example timestamp_sample : timestamp sample_now = "2026-10-30 04:41:07.123".
Proof. reflexivity. Qed.

Example digits_leading_zeros : digits 3 7 = "007" /\ digits 2 0 = "00".
Proof. split; reflexivity. Qed.

(** A property checked on every number below [N] holds for all of them. *)
Lemma below_forall (P : Z -> bool) (N : Z) :
  forallb (fun k => P (Z.of_nat k)) (seq 0 (Z.to_nat N)) = true ->
  forall n, 0 <= n < N -> P n = true.
Proof.
  intros Hall n Hn.
  rewrite forallb_forall in Hall.
  specialize (Hall (Z.to_nat n)).
  rewrite Z2Nat.id in Hall by lia.
  apply Hall. apply in_seq. lia.
Qed.

Lemma setw2_digits (n : Z) :
  0 <= n < 100 -> setw 2 "0" (put_int n) = digits 2 n.
Proof.
  intros Hn. apply String.eqb_eq.
  apply (below_forall
           (fun k => String.eqb (setw 2 "0" (put_int k)) (digits 2 k)) 100);
    [vm_compute; reflexivity | lia].
Qed.

Lemma setw3_digits (n : Z) :
  0 <= n < 1000 -> setw 3 "0" (put_int n) = digits 3 n.
Proof.
  intros Hn. apply String.eqb_eq.
  apply (below_forall
           (fun k => String.eqb (setw 3 "0" (put_int k)) (digits 3 k)) 1000);
    [vm_compute; reflexivity | lia].
Qed.

Lemma put_int_digits4 (n : Z) :
  1000 <= n <= 9999 -> put_int n = digits 4 n.
Proof.
  intros Hn. apply String.eqb_eq.
  assert (H : (n <? 1000) || String.eqb (put_int n) (digits 4 n) = true).
  { apply (below_forall
             (fun k => (k <? 1000) || String.eqb (put_int k) (digits 4 k)) 10000);
      [vm_compute; reflexivity | lia]. }
  apply orb_prop in H as [H|H]; [apply Z.ltb_lt in H; lia | exact H].
Qed.

Lemma digit_is_digit (n : Z) : is_digit (digit n) = true.
Proof.
  unfold digit.
  assert (Hm : 0 <= n mod 10 < 10) by (apply Z.mod_pos_bound; lia).
  apply (below_forall (fun m => is_digit (ascii_of_nat (48 + Z.to_nat m))) 10);
    [reflexivity | lia].
Qed.

Lemma has_format_append (f1 f2 s1 s2 : string) :
  has_format f1 s1 = true -> has_format f2 s2 = true ->
  has_format (f1 << f2) (s1 << s2) = true.
Proof.
  revert s1. induction f1 as [|c f1 IH]; intros [|a s1] H1 H2;
    simpl in *; try discriminate; [assumption |].
  apply andb_prop in H1 as [Hc H1].
  rewrite Hc. simpl. now apply IH.
Qed.

Lemma fill_snoc (k : nat) (c : ascii) :
  fill (S k) c = fill k c << String c EmptyString.
Proof. induction k as [|k IH]; [reflexivity |]. simpl in *. now rewrite IH. Qed.

(** A field of [k] digits fits [k] copies of a field letter. *)
Lemma has_format_digits (c : ascii) (k : nat) (n : Z) :
  is_field_letter c = true -> has_format (fill k c) (digits k n) = true.
Proof.
  intros Hc. revert n. induction k as [|k IH]; intros n; [reflexivity |].
  rewrite fill_snoc. cbn [digits].
  apply has_format_append; [apply IH |].
  cbn [has_format]. now rewrite Hc, digit_is_digit.
Qed.

Lemma has_format_literal (c : ascii) :
  is_field_letter c = false ->
  has_format (String c EmptyString) (String c EmptyString) = true.
Proof. intros Hc. cbn [has_format]. now rewrite Hc, Ascii.eqb_refl. Qed.

Section Platform_contract.

Variable now : Now.
Hypothesis members_in_range : tm_in_range (localtime now).
Hypothesis after_epoch : 0 <= ms_since_epoch now.

Lemma timestamp_digits : timestamp now = stamp_of now.
Proof.
  destruct members_in_range as (Hy & Hmo & Hd & Hh & Hmi & Hs).
  assert (Hrange : 0 <= ms_since_epoch now mod 1000 < 1000)
    by (apply Z.mod_pos_bound; lia).
  unfold timestamp, put_time, stamp_of. cbv zeta.
  rewrite Z.rem_mod_nonneg by lia.
  rewrite put_int_digits4 by assumption.
  now rewrite !setw2_digits, setw3_digits by lia.
Qed.

End Platform_contract.

Lemma stamp_of_format (now : Now) :
  has_format "YYYY-MM-DD HH:MM:SS.mmm" (stamp_of now) = true.
Proof.
  change "YYYY-MM-DD HH:MM:SS.mmm"
    with (fill 4 "Y" << "-" << fill 2 "M" << "-" << fill 2 "D" << " "
            << fill 2 "H" << ":" << fill 2 "M" << ":" << fill 2 "S" << "."
            << fill 3 "m").
  unfold stamp_of.
  repeat apply has_format_append;
    solve [now apply has_format_digits | now apply has_format_literal].
Qed.

(** The layout where the code keeps it.  Every emitted line is, in this
    order, the timestamp, the bracketed level name, the message and, when
    the location guard holds, the location.  For a clock reading at or
    after the epoch whose broken-down local time is in the POSIX ranges with
    a year of four digits, the timestamp is [YYYY-MM-DD HH:MM:SS.mmm], each
    field zero-padded, [mmm] being the three digits of the millisecond
    within the second. *)
Theorem emitted_line_layout (this : Logger) (now : Now) (L : Z) (msg : string)
    (file : option string) (line : Z) (io : Streams) :
  log_level_ this <= L -> tm_in_range (localtime now) -> 0 <= ms_since_epoch now ->
  exists stamp suffix,
    stamp = stamp_of now /\
    has_format "YYYY-MM-DD HH:MM:SS.mmm" stamp = true /\
    (suffix = EmptyString \/
     exists f, file = Some f /\
       suffix = " [at " << f << ":" << put_int line << "]") /\
    let assembled :=
      stamp << " [" << level_to_string this L << "] " << msg << suffix in
    snd (log this now L msg file line io) =
      if WARN <=? L
      then {| cout := cout io;
              cerr := cerr io << level_to_color this L << assembled
                        << esc "[0m" << endl |}
      else {| cout := cout io << assembled << endl; cerr := cerr io |}.
Proof.
  intros HT Htm Hms.
  exists (stamp_of now), (location L file line).
  split; [reflexivity | split; [apply stamp_of_format | split]].
  - unfold location.
    destruct (WARN <=? L); [| now left].
    destruct file as [f|]; [| now left].
    destruct (0 <? line); [| now left].
    right. now exists f.
  - cbv zeta. rewrite <- (timestamp_digits now Htm Hms).
    destruct (Z.leb_spec WARN L) as [HW|HW].
    + now rewrite log_to_cerr.
    + now rewrite log_to_cout.
Qed.

Lemma emitted_line_layout_witness :
  exists stamp suffix,
    stamp = "2026-10-30 04:41:07.123" /\
    has_format "YYYY-MM-DD HH:MM:SS.mmm" stamp = true /\
    (suffix = EmptyString \/
     exists f, Some "main.cpp" = Some f /\
       suffix = " [at " << f << ":" << put_int 174 << "]") /\
    snd (log (at_level INFO) sample_now WARN "z" (Some "main.cpp") 174 (io startup))
      = {| cout := EmptyString;
           cerr := esc "[33m"
                     << (stamp << " [" << "WARN" << "] " << "z" << suffix)
                     << esc "[0m" << endl |}.
Proof.
  apply (emitted_line_layout (at_level INFO) sample_now WARN "z"
           (Some "main.cpp") 174 (io startup)).
  - discriminate.
  - unfold tm_in_range, sample_now; simpl; lia.
  - discriminate.
Defined.

(** C4.  Every emitted line should carry a timestamp of the form
    [YYYY-MM-DD HH:MM:SS.mmm] with exactly three zero-padded millisecond
    digits, as the comment above the two formatting statements says.  The
    code misses the readings before the epoch: the remainder of a negative
    duration by 1000 is negative, [setw(3)] pads the signed text, and the
    line emitted five milliseconds before the epoch carries [.0-5], which
    is not of that form; the rest of the line is in the stated order. *)
Lemma emitted_line_before_epoch :
  Z.rem (ms_since_epoch sample_before_epoch) 1000 = -5 /\
  setw 3 "0" (put_int (-5)) = "0-5" /\
  log (at_level INFO) sample_before_epoch INFO "y" None 0 (io startup) =
    (at_level INFO,
     {| cout := "1969-12-31 23:59:59.0-5" << " [INFO] " << "y" << endl;
        cerr := EmptyString |}) /\
  has_format "YYYY-MM-DD HH:MM:SS.mmm" (timestamp sample_before_epoch) = false.
Proof. repeat split; reflexivity. Qed.

(** ** The logger across calls *)

Lemma log_frame (this : Logger) (now : Now) (L : Z) (msg : string)
    (file : option string) (line : Z) (io : Streams) :
  fst (log this now L msg file line io) = this.
Proof. rewrite log_unfold. repeat case_match; reflexivity. Qed.

Lemma on_instance_log (p : Process) (now : Now) (L : Z) (msg : string)
    (file : option string) (line : Z) :
  on_instance (fun this => log this now L msg file line) p =
  {| logger := Some (instance p);
     io := snd (log (instance p) now L msg file line (io p)) |}.
Proof.
  unfold on_instance.
  pose proof (log_frame (instance p) now L msg file line (io p)) as Hframe.
  destruct (log (instance p) now L msg file line (io p)) as [lg out].
  cbn [fst snd] in *. now subst lg.
Qed.

Lemma call_instance (c : Call) (p : Process) :
  instance (call c p) =
  match c with
  | Call_set_log_level level => set_log_level (instance p) level
  | Call_log _ _ _ _ _ => instance p
  end.
Proof.
  destruct c as [level | L msg file line now]; cbn [call].
  - reflexivity.
  - now rewrite on_instance_log.
Qed.

Lemma set_log_level_twice (this : Logger) (l m : Z) :
  set_log_level (set_log_level this l) m = set_log_level this m.
Proof. reflexivity. Qed.

Lemma set_log_level_same (this : Logger) :
  set_log_level this (log_level_ this) = this.
Proof. now destruct this. Qed.

(** After any history, the singleton is the logger the process had, with
    the threshold of the last [set_log_level]. *)
Lemma run_instance (history : list Call) (p : Process) :
  instance (run history p) =
  set_log_level (instance p) (last_level (log_level_ (instance p)) history).
Proof.
  revert p. induction history as [|c history IH]; intros p.
  - cbn. now rewrite set_log_level_same.
  - change (run (c :: history) p) with (run history (call c p)).
    rewrite IH, call_instance.
    destruct c as [level | L msg file line now]; reflexivity.
Qed.

Lemma run_from_startup (history : list Call) :
  instance (run history startup) = at_level (last_level INFO history).
Proof. now rewrite run_instance. Qed.

Lemma last_level_logs (T : Z) (history : list Call) :
  forallb is_log history = true -> last_level T history = T.
Proof.
  revert T. induction history as [|c history IH]; intros T Hlogs;
    [reflexivity |].
  cbn [forallb] in Hlogs. apply andb_prop in Hlogs as [Hc Hlogs].
  destruct c; [discriminate |]. now apply IH.
Qed.

(** ** Levels outside the tables *)

(** C5 (as amended).  For every level outside [DEBUG..ERROR] that passes
    the filter: both lookups fall back, the name to [UNKNOWN] and the colour
    to the reset escape; [log] returns normally; the label is [[UNKNOWN]];
    above [ERROR] the line goes to the error stream with the reset escape as
    its colour, below [DEBUG] it goes to the standard stream with no colour
    at all. *)
Theorem unknown_level_fallback (T L : Z) (now : Now) (msg : string)
    (file : option string) (line : Z) (io : Streams) :
  L < DEBUG \/ ERROR < L -> T <= L ->
  let this := at_level T in
  level_to_string this L = "UNKNOWN" /\
  level_to_color this L = esc "[0m" /\
  log this now L msg file line io =
    (this,
     if ERROR <? L
     then {| cout := cout io;
             cerr := cerr io << esc "[0m" << timestamp now << " [UNKNOWN] "
                       << msg << location L file line << esc "[0m" << endl |}
     else {| cout := cout io << timestamp now << " [UNKNOWN] " << msg << endl;
             cerr := cerr io |}).
Proof.
  intros Hout HT this. subst this.
  assert (Hname : level_to_string (at_level T) L = "UNKNOWN").
  { rewrite level_to_string_at. unfold DEBUG, INFO, WARN, ERROR in *.
    repeat case_match; try reflexivity; lia. }
  assert (Hcolor : level_to_color (at_level T) L = esc "[0m").
  { rewrite level_to_color_at. unfold DEBUG, INFO, WARN, ERROR in *.
    repeat case_match; try reflexivity; lia. }
  split; [exact Hname | split; [exact Hcolor |]].
  unfold DEBUG, ERROR in Hout.
  destruct (Z.ltb_spec ERROR L) as [HE|HE]; unfold ERROR in HE.
  - rewrite log_to_cerr by (unfold WARN; cbn; lia).
    unfold assemble. rewrite Hname, Hcolor.
    do 2 f_equal. repeat rewrite append_assoc. reflexivity.
  - rewrite log_to_cout by (unfold WARN; cbn; lia).
    unfold assemble. rewrite Hname.
    rewrite location_below_WARN by (unfold WARN; lia).
    do 2 f_equal. repeat rewrite append_assoc. reflexivity.
Qed.

Lemma unknown_level_fallback_witness :
  log (at_level INFO) sample_now 7 "x" None 0 (io startup) =
    (at_level INFO,
     {| cout := EmptyString;
        cerr := esc "[0m" << "2026-10-30 04:41:07.123 [UNKNOWN] x"
                  << esc "[0m" << endl |}).
Proof.
  destruct (unknown_level_fallback INFO 7 sample_now "x" None 0 (io startup))
    as (_ & _ & Hlog); [right; reflexivity | discriminate |].
  exact Hlog.
Defined.

(** C5, as stated, fails for an unmapped level below [DEBUG]: a call at
    level [-1] that passes the filter is labelled [[UNKNOWN]] and written to
    the standard stream; no colour code, the reset escape included, is
    written anywhere. *)
Lemma unknown_negative_level_uncoloured :
  level_strings_ (at_level (-1)) !! (-1) = None /\
  colors_ (at_level (-1)) !! (-1) = None /\
  log_level_ (at_level (-1)) <= -1 /\
  log (at_level (-1)) sample_now (-1) "x" None 0 (io startup) =
    (at_level (-1),
     {| cout := "2026-10-30 04:41:07.123 [UNKNOWN] x" << endl;
        cerr := EmptyString |}) /\
  count_char ESC
    (cout (snd (log (at_level (-1)) sample_now (-1) "x" None 0 (io startup))))
    = O.
Proof. repeat split; reflexivity. Qed.

(** ** The macros at the default threshold *)

Lemma macro_io (p : Process) (now : Now) (L : Z) (msg : string)
    (file : option string) (line : Z) :
  io (on_instance (fun this => log this now L msg file line) p) =
  snd (log (instance p) now L msg file line (io p)).
Proof. now rewrite on_instance_log. Qed.

(** What an emitted [WARN] or [ERROR] macro appends to the error stream. *)
Lemma located_record (T L : Z) (now : Now) (msg : string) (site : CallSite)
    (out : Streams) :
  T <= L -> WARN <= L ->
  snd (log (at_level T) now L msg (Some (FILE_ site)) (Z.pos (LINE_ site)) out) =
  {| cout := cout out;
     cerr := cerr out << level_to_color (at_level T) L << timestamp now
               << " [" << level_to_string (at_level T) L << "] " << msg
               << " [at " << FILE_ site << ":" << put_int (Z.pos (LINE_ site))
               << "]" << esc "[0m" << endl |}.
Proof.
  intros HT HW.
  rewrite log_to_cerr by assumption. cbn [snd].
  unfold assemble. rewrite location_some by (assumption || lia).
  f_equal. repeat rewrite append_assoc. reflexivity.
Qed.

(** C6.  Before any [set_log_level] the threshold is [INFO]: a debug
    message writes nothing; an info message appends `<timestamp> [INFO] y`
    and a line feed to the standard stream; a warn (error) message appends
    to the error stream the colour escape, `<timestamp> [WARN] z`
    (`[ERROR] w`), the location of the call site, the reset escape and a
    line feed. *)
Theorem default_threshold_scenario (history : list Call) (now : Now)
    (site : CallSite) (x y z w : string) :
  forallb is_log history = true ->
  let p := run history startup in
  log_level_ (instance p) = INFO /\
  io (LOG_DEBUG x now p) = io p /\
  io (LOG_INFO y now p) =
    {| cout := cout (io p) << timestamp now << " [INFO] " << y << endl;
       cerr := cerr (io p) |} /\
  io (LOG_WARN z site now p) =
    {| cout := cout (io p);
       cerr := cerr (io p) << esc "[33m" << timestamp now << " [WARN] " << z
                 << " [at " << FILE_ site << ":" << put_int (Z.pos (LINE_ site))
                 << "]" << esc "[0m" << endl |} /\
  io (LOG_ERROR w site now p) =
    {| cout := cout (io p);
       cerr := cerr (io p) << esc "[31m" << timestamp now << " [ERROR] " << w
                 << " [at " << FILE_ site << ":" << put_int (Z.pos (LINE_ site))
                 << "]" << esc "[0m" << endl |}.
Proof.
  intros Hlogs p.
  assert (Hinst : instance p = at_level INFO).
  { subst p. now rewrite run_from_startup, last_level_logs. }
  unfold LOG_DEBUG, LOG_INFO, LOG_WARN, LOG_ERROR.
  rewrite !macro_io, Hinst.
  split; [reflexivity | split; [| split; [| split]]].
  - now rewrite log_suppressed by level_order.
  - rewrite log_to_cout by level_order. cbn [snd]. f_equal.
    unfold assemble. repeat rewrite append_assoc. reflexivity.
  - rewrite located_record by level_order. f_equal.
    repeat rewrite append_assoc. reflexivity.
  - rewrite located_record by level_order. f_equal.
    repeat rewrite append_assoc. reflexivity.
Qed.

Lemma default_threshold_scenario_witness :
  io (LOG_DEBUG "x" sample_now startup) = io startup /\
  io (LOG_INFO "y" sample_now startup) =
    {| cout := "2026-10-30 04:41:07.123 [INFO] y" << endl;
       cerr := EmptyString |} /\
  io (LOG_WARN "z" sample_site sample_now startup) =
    {| cout := EmptyString;
       cerr := esc "[33m" << "2026-10-30 04:41:07.123 [WARN] z [at main.cpp:174]"
                 << esc "[0m" << endl |}.
Proof.
  destruct (default_threshold_scenario nil sample_now sample_site "x" "y" "z" "w")
    as (_ & Hx & Hy & Hz & _); [reflexivity |].
  split; [exact Hx | split; [exact Hy | exact Hz]].
Defined.

(** ** After [set_log_level(ERROR)] *)

Lemma length_append (a b : string) :
  String.length (a << b) = (String.length a + String.length b)%nat.
Proof. induction a as [|x a IH]; simpl; [reflexivity | now rewrite IH]. Qed.

(** C7.  Once the threshold has been set to [ERROR], and whatever was and
    is logged around it, every later warn call leaves both streams as they
    are, and every later error call appends its record to the error
    stream. *)
Theorem after_set_level_ERROR (history later : list Call) (msg : string)
    (site : CallSite) (now : Now) :
  forallb is_log later = true ->
  let p := run later (SET_LOG_LEVEL ERROR (run history startup)) in
  log_level_ (instance p) = ERROR /\
  io (LOG_WARN msg site now p) = io p /\
  io (LOG_ERROR msg site now p) =
    {| cout := cout (io p);
       cerr := cerr (io p) << esc "[31m" << timestamp now << " [ERROR] " << msg
                 << " [at " << FILE_ site << ":" << put_int (Z.pos (LINE_ site))
                 << "]" << esc "[0m" << endl |} /\
  (String.length (cerr (io p))
     < String.length (cerr (io (LOG_ERROR msg site now p))))%nat.
Proof.
  intros Hlogs p.
  assert (Hinst : instance p = at_level ERROR).
  { subst p. rewrite run_instance.
    change (instance (SET_LOG_LEVEL ERROR (run history startup)))
      with (set_log_level (instance (run history startup)) ERROR).
    rewrite run_from_startup. cbn [log_level_ set_log_level].
    rewrite (last_level_logs ERROR later Hlogs). reflexivity. }
  assert (Herr : io (LOG_ERROR msg site now p) =
    {| cout := cout (io p);
       cerr := cerr (io p) << esc "[31m" << timestamp now << " [ERROR] " << msg
                 << " [at " << FILE_ site << ":" << put_int (Z.pos (LINE_ site))
                 << "]" << esc "[0m" << endl |}).
  { unfold LOG_ERROR. rewrite macro_io, Hinst.
    rewrite located_record by level_order. f_equal.
    repeat rewrite append_assoc. reflexivity. }
  split; [now rewrite Hinst | split; [| split; [exact Herr |]]].
  - unfold LOG_WARN. rewrite macro_io, Hinst.
    now rewrite log_suppressed by level_order.
  - rewrite Herr. cbn [cerr]. repeat rewrite length_append.
    change (String.length endl) with 1%nat. lia.
Qed.

Lemma after_set_level_ERROR_witness :
  io (LOG_WARN "z" sample_site sample_now (SET_LOG_LEVEL ERROR startup))
    = io startup /\
  io (LOG_ERROR "w" sample_site sample_now (SET_LOG_LEVEL ERROR startup)) =
    {| cout := EmptyString;
       cerr := esc "[31m" << "2026-10-30 04:41:07.123 [ERROR] w [at main.cpp:174]"
                 << esc "[0m" << endl |}.
Proof.
  destruct (after_set_level_ERROR nil nil "z" sample_site sample_now)
    as (_ & Hwarn & _); [reflexivity |].
  destruct (after_set_level_ERROR nil nil "w" sample_site sample_now)
    as (_ & _ & Herror & _); [reflexivity |].
  split; [exact Hwarn | exact Herror].
Defined.

(** ** [LOG_CRITICAL] *)

(** C8.  [LOG_CRITICAL(msg)] is the [log] call at [ERROR] whose message is
    [msg] behind the marker `ESC[1;31mCRITICAL:ESC[0m ` (bold red, then
    reset) and whose location is the caller's file and line; when [ERROR]
    passes the threshold the marked message and that location reach the
    error stream. *)
Theorem LOG_CRITICAL_spec (history : list Call) (msg : string)
    (site : CallSite) (now : Now) :
  let p := run history startup in
  let marked := esc "[1;31m" << "CRITICAL:" << esc "[0m" << " " << msg in
  LOG_CRITICAL msg site now p =
    call (Call_log ERROR marked (Some (FILE_ site)) (Z.pos (LINE_ site)) now) p /\
  LOG_CRITICAL msg site now p = LOG_ERROR marked site now p /\
  io (LOG_CRITICAL msg site now p) =
    if ERROR <? log_level_ (instance p) then io p
    else {| cout := cout (io p);
            cerr := cerr (io p) << esc "[31m" << timestamp now << " [ERROR] "
                      << marked << " [at " << FILE_ site << ":"
                      << put_int (Z.pos (LINE_ site)) << "]"
                      << esc "[0m" << endl |}.
Proof.
  intros p marked.
  assert (Hmarked : esc "[1;31mCRITICAL:" << esc "[0m " << msg = marked).
  { subst marked. repeat rewrite append_assoc. reflexivity. }
  assert (Hcall : LOG_CRITICAL msg site now p = LOG_ERROR marked site now p).
  { unfold LOG_CRITICAL, LOG_ERROR. now rewrite Hmarked. }
  split; [exact Hcall | split; [exact Hcall |]].
  rewrite Hcall. unfold LOG_ERROR. rewrite macro_io.
  subst p. rewrite run_from_startup.
  set (T := last_level INFO history).
  change (log_level_ (at_level T)) with T.
  destruct (Z.ltb_spec ERROR T) as [HT|HT].
  - now rewrite log_suppressed by level_order.
  - rewrite located_record by level_order. f_equal.
    repeat rewrite append_assoc. reflexivity.
Qed.

(** ** [LOG_IF] *)

Lemma LOG_IF_instance (condition : bool) (level : Z) (msg : string)
    (now : Now) (n : nat) (p : Process) :
  instance (Nat.iter n (LOG_IF condition level msg now) p) = instance p.
Proof.
  induction n as [|n IH]; [reflexivity |].
  cbn [Nat.iter nat_rect]. unfold LOG_IF at 1.
  destruct condition; [| exact IH].
  now rewrite on_instance_log.
Qed.

(** C9.  [LOG_IF(condition, level, msg)] is the plain [log] call when the
    condition is true and nothing when it is false; the condition is the
    only gate: [n] calls in a row with a true condition and a passing level
    append [n] copies of the record, with a false condition they append
    nothing. *)
Theorem LOG_IF_spec (level : Z) (msg : string) (now : Now) (p : Process) :
  LOG_IF true level msg now p = call (Call_log level msg None 0 now) p /\
  LOG_IF true level msg now p = LOG_CUSTOM level msg now p /\
  LOG_IF false level msg now p = p /\
  (forall n, Nat.iter n (LOG_IF false level msg now) p = p) /\
  (forall n, log_level_ (instance p) <= level ->
     io (Nat.iter n (LOG_IF true level msg now) p) =
       let text := assemble (instance p) now level msg None 0 in
       if WARN <=? level
       then {| cout := cout (io p);
               cerr := cerr (io p)
                         << copies n (level_to_color (instance p) level << text
                                        << esc "[0m" << endl) |}
       else {| cout := cout (io p) << copies n (text << endl);
               cerr := cerr (io p) |}).
Proof.
  split; [reflexivity | split; [reflexivity | split; [reflexivity | split]]].
  - intros n. induction n as [|n IH]; [reflexivity |].
    cbn [Nat.iter nat_rect]. exact IH.
  - intros n HT. cbv zeta. induction n as [|n IH].
    + cbn [Nat.iter nat_rect copies]. rewrite !append_nil_r.
      destruct (io p), (WARN <=? level); reflexivity.
    + change (Nat.iter (S n) (LOG_IF true level msg now) p)
        with (LOG_IF true level msg now (Nat.iter n (LOG_IF true level msg now) p)).
      unfold LOG_IF at 1. rewrite macro_io, LOG_IF_instance, IH.
      destruct (Z.leb_spec WARN level) as [HW|HW].
      * rewrite log_to_cerr by assumption. cbn [snd cout cerr copies].
        f_equal. repeat rewrite append_assoc. reflexivity.
      * rewrite log_to_cout by assumption. cbn [snd cout cerr copies].
        f_equal. repeat rewrite append_assoc. reflexivity.
Qed.

Lemma LOG_IF_spec_witness :
  io (LOG_IF true INFO "y" sample_now (LOG_IF true INFO "y" sample_now startup)) =
    {| cout := "2026-10-30 04:41:07.123 [INFO] y" << endl
                 << "2026-10-30 04:41:07.123 [INFO] y" << endl;
       cerr := EmptyString |}.
Proof.
  destruct (LOG_IF_spec INFO "y" sample_now startup) as (_ & _ & _ & _ & Hn).
  apply (Hn 2%nat). discriminate.
Defined.

(** ** The state of the logger *)

(** C10.  [log] returns the logger it was given: threshold, names and
    colours are what they were, whether the message was suppressed or
    written.  So after any history the singleton is the constructed logger
    with the threshold of the last [set_log_level] ([INFO] when there was
    none).  Setting the same level twice in a row is setting it once: the
    process is in the same state, hence filters alike ever after. *)
Theorem log_preserves_logger (this : Logger) (now : Now) (L : Z)
    (msg : string) (file : option string) (line : Z) (out : Streams)
    (p : Process) (history later : list Call) (level : Z) :
  fst (log this now L msg file line out) = this /\
  instance (call (Call_log L msg file line now) p) = instance p /\
  instance (run history startup) = at_level (last_level INFO history) /\
  last_level INFO (history ++ Call_log L msg file line now :: nil)
    = last_level INFO history /\
  set_log_level (set_log_level this level) level = set_log_level this level /\
  SET_LOG_LEVEL level (SET_LOG_LEVEL level p) = SET_LOG_LEVEL level p /\
  run later (SET_LOG_LEVEL level (SET_LOG_LEVEL level p))
    = run later (SET_LOG_LEVEL level p).
Proof.
  split; [apply log_frame |].
  split; [exact (call_instance (Call_log L msg file line now) p) |].
  split; [apply run_from_startup |].
  split; [unfold last_level; now rewrite fold_left_app |].
  split; [apply set_log_level_twice |].
  split; reflexivity.
Qed.

(** * Further properties *)

(** ** What one call writes *)

Lemma append_same (a b : string) : a << b = a -> b = EmptyString.
Proof.
  intros H. apply (f_equal String.length) in H.
  rewrite length_append in H.
  destruct b; [reflexivity | cbn [String.length] in H; lia].
Qed.

(** [log] extends each stream with what it would write on an empty one. *)
Lemma log_appends (this : Logger) (now : Now) (L : Z) (msg : string)
    (file : option string) (line : Z) (out : Streams) :
  snd (log this now L msg file line out) =
  {| cout := cout out << cout (written this now L msg file line);
     cerr := cerr out << cerr (written this now L msg file line) |}.
Proof.
  unfold written. rewrite !log_unfold.
  destruct (L <? log_level_ this).
  - cbn [snd cout cerr]. rewrite !append_nil_r. now destruct out.
  - destruct (WARN <=? L); cbn [snd cout cerr]; rewrite ?append_nil_r;
      f_equal; repeat rewrite append_assoc; reflexivity.
Qed.

Lemma call_io (c : Call) (p : Process) :
  io (call c p) =
  match c with
  | Call_set_log_level _ => io p
  | Call_log L msg file line now =>
      {| cout := cout (io p) << cout (written (instance p) now L msg file line);
         cerr := cerr (io p) << cerr (written (instance p) now L msg file line) |}
  end.
Proof.
  destruct c as [level | L msg file line now]; cbn [call].
  - reflexivity.
  - now rewrite macro_io, log_appends.
Qed.

Lemma run_cons (c : Call) (history : list Call) (p : Process) :
  run (c :: history) p = run history (call c p).
Proof. reflexivity. Qed.

(** An emitted call changes a stream: the record is never empty. *)
Lemma log_changes (this : Logger) (now : Now) (L : Z) (msg : string)
    (file : option string) (line : Z) (out : Streams) :
  log_level_ this <= L -> snd (log this now L msg file line out) <> out.
Proof.
  intros HT Hsame.
  destruct (Z.leb_spec WARN L) as [HW|HW].
  - rewrite log_to_cerr in Hsame by assumption.
    apply (f_equal cerr) in Hsame. cbn [snd cerr] in Hsame.
    repeat rewrite append_assoc in Hsame.
    apply append_same in Hsame.
    apply (f_equal String.length) in Hsame.
    repeat rewrite length_append in Hsame.
    change (String.length endl) with 1%nat in Hsame.
    cbn [String.length] in Hsame. lia.
  - rewrite log_to_cout in Hsame by assumption.
    apply (f_equal cout) in Hsame. cbn [snd cout] in Hsame.
    repeat rewrite append_assoc in Hsame.
    apply append_same in Hsame.
    apply (f_equal String.length) in Hsame.
    repeat rewrite length_append in Hsame.
    change (String.length endl) with 1%nat in Hsame.
    cbn [String.length] in Hsame. lia.
Qed.

(** X1.  The streams only grow: whatever the process and the calls, what
    was on a stream before is still its beginning afterwards. *)
Theorem streams_append_only (history : list Call) (p : Process) :
  exists out err,
    io (run history p) =
    {| cout := cout (io p) << out; cerr := cerr (io p) << err |}.
Proof.
  revert p. induction history as [|c history IH]; intros p.
  - exists EmptyString, EmptyString. cbn [run fold_left].
    rewrite !append_nil_r. now destruct (io p).
  - rewrite run_cons. destruct (IH (call c p)) as (out & err & Hrun).
    rewrite Hrun, call_io. destruct c as [level | L msg file line now].
    + now exists out, err.
    + cbn [cout cerr]. rewrite !append_assoc. eauto.
Qed.

(** X2.  A call of [log] leaves both streams as they are exactly when its
    level is below the threshold: an emitted call always writes. *)
Theorem log_silent_iff_suppressed (this : Logger) (now : Now) (L : Z)
    (msg : string) (file : option string) (line : Z) (out : Streams) :
  snd (log this now L msg file line out) = out <-> L < log_level_ this.
Proof.
  split.
  - intros Hsame. destruct (Z.lt_ge_cases L (log_level_ this)) as [H|H];
      [assumption |].
    now apply log_changes in Hsame.
  - intros H. now rewrite log_suppressed.
Qed.

(** X3.  Filtering is monotone: when a call is suppressed, so is every call
    at a level no higher under a threshold no lower. *)
Theorem filter_monotone (this : Logger) (T' L L' : Z) (now now' : Now)
    (msg msg' : string) (file file' : option string) (line line' : Z)
    (out out' : Streams) :
  snd (log this now L msg file line out) = out ->
  L' <= L -> log_level_ this <= T' ->
  snd (log (set_log_level this T') now' L' msg' file' line' out') = out'.
Proof.
  intros Hsame HL HT.
  destruct (Z.lt_ge_cases L (log_level_ this)) as [H|H].
  - rewrite log_suppressed; [reflexivity |]. cbn [log_level_ set_log_level]. lia.
  - now apply log_changes in Hsame.
Qed.

Lemma filter_monotone_witness :
  snd (log (set_log_level (at_level WARN) ERROR) sample_now DEBUG "x" None 0
         (io startup)) = io startup.
Proof.
  apply (filter_monotone (at_level WARN) ERROR INFO DEBUG sample_now sample_now
           "y" "x" None None 0 0 (io startup) (io startup)).
  - reflexivity.
  - discriminate.
  - discriminate.
Defined.

(** ** One line per emitted record *)

Lemma written_count_LF (T L : Z) (now : Now) (msg : string)
    (file : option string) (line : Z) :
  count_char LF msg = O ->
  (forall f, file = Some f -> count_char LF f = O) ->
  (count_char LF (cout (written (at_level T) now L msg file line))
   + count_char LF (cerr (written (at_level T) now L msg file line)))%nat
  = if L <? T then O else 1%nat.
Proof.
  intros Hmsg Hfile.
  assert (Hline : count_char LF (assemble (at_level T) now L msg file line) = O).
  { unfold assemble. repeat rewrite count_char_append.
    rewrite timestamp_no_LF, level_to_string_count by reflexivity.
    rewrite Hmsg, location_count_LF by assumption. reflexivity. }
  assert (Hendl : count_char LF endl = 1%nat) by reflexivity.
  assert (Hreset : count_char LF (esc "[0m") = O) by reflexivity.
  assert (Hnil : count_char LF EmptyString = O) by reflexivity.
  unfold written. rewrite log_unfold.
  change (log_level_ (at_level T)) with T.
  destruct (L <? T); [reflexivity |].
  destruct (WARN <=? L); cbn [snd cout cerr];
    repeat rewrite count_char_append;
    rewrite ?level_to_color_no_LF, Hline, Hendl, ?Hreset, Hnil; reflexivity.
Qed.

Lemma call_at_level (c : Call) (p : Process) (T : Z) :
  instance p = at_level T -> instance (call c p) = at_level (next_level T c).
Proof.
  intros Hp. rewrite call_instance, Hp. now destruct c.
Qed.

Lemma run_count_LF (history : list Call) (p : Process) (T : Z) :
  instance p = at_level T -> Forall single_line history ->
  (count_char LF (cout (io (run history p)))
   + count_char LF (cerr (io (run history p))))%nat
  = (count_char LF (cout (io p)) + count_char LF (cerr (io p))
     + emitted T history)%nat.
Proof.
  revert p T. induction history as [|c history IH]; intros p T Hp Hall.
  - cbn [run fold_left emitted]. lia.
  - inversion Hall as [|c' rest Hc Hrest]; subst.
    rewrite run_cons, (IH (call c p) (next_level T c));
      [| now apply call_at_level | assumption].
    rewrite call_io. cbn [emitted].
    destruct c as [level | L msg file line now]; [cbn; lia |].
    destruct Hc as [Hmsg Hfile].
    pose proof (written_count_LF T L now msg file line Hmsg Hfile) as Hone.
    rewrite Hp. cbn [cout cerr next_level].
    repeat rewrite count_char_append. lia.
Qed.

(** X4.  When no message and no file name holds a line feed, the two
    streams together hold, after any history of calls, as many line feeds
    as calls passed the filter: a line per emitted record, none for a
    suppressed call or for [set_log_level]. *)
Theorem lines_equal_emitted_calls (history : list Call) :
  Forall single_line history ->
  (count_char LF (cout (io (run history startup)))
   + count_char LF (cerr (io (run history startup))))%nat
  = emitted INFO history.
Proof.
  intros Hall.
  now rewrite (run_count_LF history startup INFO eq_refl Hall).
Qed.

Lemma lines_equal_emitted_calls_witness :
  let history :=
    Call_log DEBUG "x" None 0 sample_now
    :: Call_log WARN "z" (Some "main.cpp") 174 sample_now
    :: Call_set_log_level ERROR
    :: Call_log WARN "z" (Some "main.cpp") 175 sample_now
    :: Call_log ERROR "w" None 0 sample_now :: nil in
  (count_char LF (cout (io (run history startup)))
   + count_char LF (cerr (io (run history startup))))%nat = 2%nat.
Proof.
  intros history.
  apply (lines_equal_emitted_calls history).
  repeat constructor; intros f Hf; inversion Hf; reflexivity.
Defined.

(** ** How the streams end *)

Lemma call_keeps_endings (c : Call) (p : Process) :
  (cout (io p) = EmptyString \/ exists body, cout (io p) = body << endl) ->
  (cerr (io p) = EmptyString \/
   exists body, cerr (io p) = body << esc "[0m" << endl) ->
  (cout (io (call c p)) = EmptyString \/
   exists body, cout (io (call c p)) = body << endl) /\
  (cerr (io (call c p)) = EmptyString \/
   exists body, cerr (io (call c p)) = body << esc "[0m" << endl).
Proof.
  intros Hout Herr.
  destruct c as [level | L msg file line now]; cbn [call].
  - now split.
  - rewrite macro_io, log_unfold.
    destruct (L <? log_level_ (instance p)); [now split |].
    destruct (WARN <=? L); cbn [snd cout cerr]; split; eauto.
Qed.

(** X5.  After any history of calls the error stream is empty or ends with
    the reset escape and a line feed, so that the last record written to it
    has switched its colour off, and the standard stream is empty or ends
    with a line feed: no record is left open on either stream. *)
Theorem streams_end_closed (history : list Call) :
  let p := run history startup in
  (cout (io p) = EmptyString \/ exists body, cout (io p) = body << endl) /\
  (cerr (io p) = EmptyString \/
   exists body, cerr (io p) = body << esc "[0m" << endl).
Proof.
  cbv zeta.
  assert (Hgen : forall p,
    (cout (io p) = EmptyString \/ exists body, cout (io p) = body << endl) ->
    (cerr (io p) = EmptyString \/
     exists body, cerr (io p) = body << esc "[0m" << endl) ->
    (cout (io (run history p)) = EmptyString \/
     exists body, cout (io (run history p)) = body << endl) /\
    (cerr (io (run history p)) = EmptyString \/
     exists body, cerr (io (run history p)) = body << esc "[0m" << endl)).
  { induction history as [|c history IH]; intros p Hout Herr.
    - now split.
    - rewrite run_cons.
      destruct (call_keeps_endings c p Hout Herr) as [Hout' Herr'].
      now apply IH. }
  apply Hgen; now left.
Qed.

(** ** The tables the constructor fills *)

(** X6.  The label tells the level: a mapped level and any other level
    with the same label are the same level, and the label is [UNKNOWN]
    exactly for the levels outside [DEBUG..ERROR]. *)
Theorem label_identifies_level (T L1 L2 : Z) :
  (DEBUG <= L1 <= ERROR ->
   level_to_string (at_level T) L1 = level_to_string (at_level T) L2 ->
   L1 = L2) /\
  (level_to_string (at_level T) L1 = "UNKNOWN" <-> L1 < DEBUG \/ ERROR < L1).
Proof.
  rewrite !level_to_string_at. unfold DEBUG, INFO, WARN, ERROR.
  split; [intros Hin Hsame | split; [intros Hname | intros Hout]].
  - destruct (Z.eqb_spec L1 0), (Z.eqb_spec L1 3), (Z.eqb_spec L1 2),
      (Z.eqb_spec L1 1), (Z.eqb_spec L2 0), (Z.eqb_spec L2 3),
      (Z.eqb_spec L2 2), (Z.eqb_spec L2 1);
      solve [lia | discriminate Hsame].
  - destruct (Z.eqb_spec L1 0), (Z.eqb_spec L1 3), (Z.eqb_spec L1 2),
      (Z.eqb_spec L1 1); solve [lia | discriminate Hname].
  - destruct (Z.eqb_spec L1 0), (Z.eqb_spec L1 3), (Z.eqb_spec L1 2),
      (Z.eqb_spec L1 1); solve [lia | reflexivity].
Qed.

Lemma label_identifies_level_witness :
  (level_to_string (at_level INFO) WARN = level_to_string (at_level INFO) WARN ->
   WARN = WARN) /\
  level_to_string (at_level INFO) 4 = "UNKNOWN".
Proof.
  split.
  - apply (label_identifies_level INFO WARN WARN). split; discriminate.
  - apply (label_identifies_level INFO 4 4). right. reflexivity.
Defined.

(** X7.  The colour [log] writes in front of a record is yellow for
    [WARN], red for [ERROR] and the reset escape for every level above:
    the cyan of [DEBUG] is in the table but is never written, a [DEBUG]
    record going to the standard stream without colour. *)
Theorem colours_written (T L : Z) (now : Now) (msg : string)
    (file : option string) (line : Z) (out : Streams) :
  T <= L -> WARN <= L ->
  let colour :=
    if L =? WARN then esc "[33m"
    else if L =? ERROR then esc "[31m" else esc "[0m" in
  colour <> esc "[36m" /\
  level_to_color (at_level T) DEBUG = esc "[36m" /\
  snd (log (at_level T) now L msg file line out) =
    {| cout := cout out;
       cerr := cerr out << colour << assemble (at_level T) now L msg file line
                 << esc "[0m" << endl |}.
Proof.
  intros HT HW colour. subst colour.
  split; [repeat case_match; discriminate | split; [reflexivity |]].
  rewrite log_to_cerr by assumption. cbn [snd].
  rewrite level_to_color_at. unfold DEBUG, WARN, ERROR in *.
  destruct (Z.eqb_spec L 3), (Z.eqb_spec L 2), (Z.eqb_spec L 0);
    solve [lia | reflexivity].
Qed.

Lemma colours_written_witness :
  snd (log (at_level DEBUG) sample_now DEBUG "x" None 0 (io startup)) =
    {| cout := "2026-10-30 04:41:07.123 [DEBUG] x" << endl;
       cerr := EmptyString |} /\
  snd (log (at_level DEBUG) sample_now WARN "z" None 0 (io startup)) =
    {| cout := EmptyString;
       cerr := esc "[33m" << "2026-10-30 04:41:07.123 [WARN] z"
                 << esc "[0m" << endl |}.
Proof.
  split; [reflexivity |].
  destruct (colours_written DEBUG WARN sample_now "z" None 0 (io startup))
    as (_ & _ & Hlog); [discriminate | discriminate |].
  exact Hlog.
Defined.

(** ** Thresholds beyond the enumerators *)

(** X8.  A threshold above [ERROR] switches the logger off: whatever the
    process was, after [set_log_level] with such a level none of the macros
    that fix their level writes anything. *)
Theorem threshold_above_ERROR_silences (T : Z) (q : Process) (now : Now)
    (site : CallSite) (msg : string) :
  ERROR < T ->
  let p := SET_LOG_LEVEL T q in
  io (LOG_DEBUG msg now p) = io p /\
  io (LOG_INFO msg now p) = io p /\
  io (LOG_WARN msg site now p) = io p /\
  io (LOG_ERROR msg site now p) = io p /\
  io (LOG_CRITICAL msg site now p) = io p.
Proof.
  intros HT p.
  assert (Hlevel : log_level_ (instance p) = T) by reflexivity.
  unfold LOG_DEBUG, LOG_INFO, LOG_WARN, LOG_ERROR, LOG_CRITICAL.
  rewrite !macro_io.
  repeat split; rewrite log_suppressed; try reflexivity;
    rewrite Hlevel; unfold DEBUG, INFO, WARN, ERROR in *; lia.
Qed.

Lemma threshold_above_ERROR_silences_witness :
  io (LOG_ERROR "w" sample_site sample_now (SET_LOG_LEVEL 4 startup))
    = io startup.
Proof.
  destruct (threshold_above_ERROR_silences 4 startup sample_now sample_site "w")
    as (_ & _ & _ & Herror & _); [reflexivity |].
  exact Herror.
Defined.

(** X9.  What a call of [log] writes depends on the calls before it only
    through the level of the last [set_log_level]: it extends the streams
    with what the constructed logger at that threshold writes. *)
Theorem output_depends_on_last_level (history : list Call) (L : Z)
    (msg : string) (file : option string) (line : Z) (now : Now) :
  let p := run history startup in
  let text := written (at_level (last_level INFO history)) now L msg file line in
  io (call (Call_log L msg file line now) p) =
    {| cout := cout (io p) << cout text; cerr := cerr (io p) << cerr text |}.
Proof.
  cbv zeta. now rewrite call_io, run_from_startup.
Qed.

(** ** A clock before the epoch *)






(** ** The two streams are independent *)

Lemma written_cout_above (this : Logger) (now : Now) (L : Z) (msg : string)
    (file : option string) (line : Z) :
  (L <? WARN) = false -> cout (written this now L msg file line) = EmptyString.
Proof.
  intros HW. apply Z.ltb_ge, Z.leb_le in HW.
  unfold written. rewrite log_unfold, HW. now destruct (L <? log_level_ this).
Qed.

Lemma written_cerr_below (this : Logger) (now : Now) (L : Z) (msg : string)
    (file : option string) (line : Z) :
  (WARN <=? L) = false -> cerr (written this now L msg file line) = EmptyString.
Proof.
  intros HW. unfold written. rewrite log_unfold, HW.
  now destruct (L <? log_level_ this).
Qed.

Lemma run_cout (history : list Call) (p q : Process) :
  instance p = instance q -> cout (io p) = cout (io q) ->
  cout (io (run history p)) = cout (io (run (List.filter for_cout history) q)).
Proof.
  revert p q. induction history as [|c history IH]; intros p q Hinst Hout.
  - exact Hout.
  - rewrite run_cons. cbn [List.filter].
    destruct c as [level | L msg file line now]; cbn [for_cout].
    + rewrite run_cons. apply IH.
      * now rewrite !call_instance, Hinst.
      * now rewrite !call_io.
    + destruct (L <? WARN) eqn:HW.
      * rewrite run_cons. apply IH.
        -- now rewrite !call_instance.
        -- rewrite !call_io. cbn [cout]. now rewrite Hinst, Hout.
      * apply IH.
        -- now rewrite call_instance.
        -- rewrite call_io. cbn [cout].
           now rewrite written_cout_above, append_nil_r.
Qed.

Lemma run_cerr (history : list Call) (p q : Process) :
  instance p = instance q -> cerr (io p) = cerr (io q) ->
  cerr (io (run history p)) = cerr (io (run (List.filter for_cerr history) q)).
Proof.
  revert p q. induction history as [|c history IH]; intros p q Hinst Herr.
  - exact Herr.
  - rewrite run_cons. cbn [List.filter].
    destruct c as [level | L msg file line now]; cbn [for_cerr].
    + rewrite run_cons. apply IH.
      * now rewrite !call_instance, Hinst.
      * now rewrite !call_io.
    + destruct (WARN <=? L) eqn:HW.
      * rewrite run_cons. apply IH.
        -- now rewrite !call_instance.
        -- rewrite !call_io. cbn [cerr]. now rewrite Hinst, Herr.
      * apply IH.
        -- now rewrite call_instance.
        -- rewrite call_io. cbn [cerr].
           now rewrite written_cerr_below, append_nil_r.
Qed.

(** X11.  The standard stream is what the [set_log_level] calls and the
    [log] calls below [WARN] alone would have made it, and the error stream
    what the [set_log_level] calls and the [log] calls at [WARN] or above
    alone would have made it: traffic for one stream leaves no trace on the
    other. *)
Theorem streams_independent (history : list Call) (p : Process) :
  cout (io (run history p)) = cout (io (run (List.filter for_cout history) p)) /\
  cerr (io (run history p)) = cerr (io (run (List.filter for_cerr history) p)).
Proof. split; [now apply run_cout | now apply run_cerr]. Qed.

(** ** The demo *)

(** X12.  [main], run in a fresh process with any clock: the debug call
    writes nothing; the info call, the threshold being the default, does
    write its line to the standard stream; the error stream receives, in
    order, the warning and the error with their call sites, the custom
    warning without location, the critical error with its marker and call
    site, and the error of the conditional call, whose condition holds,
    without location. *)
Theorem main_output (FILE : string) (clock : nat -> Now) :
  io (main FILE clock startup) =
  {| cout :=
       timestamp (clock 1%nat) << " [INFO] This info message won't be shown"
         << endl;
     cerr :=
       esc "[33m" << timestamp (clock 2%nat)
         << " [WARN] Disk space below 20% [at " << FILE << ":174]"
         << esc "[0m" << endl
       << esc "[31m" << timestamp (clock 3%nat)
         << " [ERROR] Failed to open config file [at " << FILE << ":177]"
         << esc "[0m" << endl
       << esc "[33m" << timestamp (clock 4%nat)
         << " [WARN] Custom warning: Network latency high"
         << esc "[0m" << endl
       << esc "[31m" << timestamp (clock 5%nat)
         << " [ERROR] " << esc "[1;31mCRITICAL:" << esc "[0m System overheating!"
         << " [at " << FILE << ":183]" << esc "[0m" << endl
       << esc "[31m" << timestamp (clock 6%nat)
         << " [ERROR] Exceeded max retry attempts: 3"
         << esc "[0m" << endl |}.
Proof.
  unfold main, LOG_DEBUG, LOG_INFO, LOG_WARN, LOG_ERROR, LOG_CUSTOM,
    LOG_CRITICAL, LOG_IF.
  cbv zeta. change (3 >? 2) with true. cbv iota.
  rewrite !on_instance_log. cbn [instance logger io startup].
  change Logger_new with (at_level INFO).
  rewrite (log_suppressed _ (clock 0%nat)) by level_order.
  rewrite (log_to_cout _ (clock 1%nat)) by level_order. cbn [snd cout cerr].
  rewrite (located_record _ _ (clock 2%nat)) by level_order.
  cbn [cout cerr].
  rewrite (located_record _ _ (clock 3%nat)) by level_order.
  cbn [cout cerr].
  rewrite (log_to_cerr _ (clock 4%nat)) by level_order. cbn [snd cout cerr].
  rewrite (located_record _ _ (clock 5%nat)) by level_order.
  cbn [cout cerr].
  rewrite (log_to_cerr _ (clock 6%nat)) by level_order. cbn [snd cout cerr].
  cbn [FILE_ LINE_]. unfold assemble.
  rewrite !location_none by (intros (_ & Hfile & _); now apply Hfile).
  f_equal; repeat rewrite append_assoc; reflexivity.
Qed.

(** ** Suppressed calls *)

(** What the calls to come do depends on the process only through its
    logger and its streams. *)
Lemma run_ext (history : list Call) (p q : Process) :
  instance p = instance q -> io p = io q ->
  instance (run history p) = instance (run history q) /\
  io (run history p) = io (run history q).
Proof.
  revert p q. induction history as [|c history IH]; intros p q Hinst Hio.
  - now split.
  - rewrite !run_cons. apply IH.
    + now rewrite !call_instance, Hinst.
    + now rewrite !call_io, Hinst, Hio.
Qed.

(** X13.  A suppressed call leaves no trace: whatever calls follow, the
    logger and the streams are what they would be had the suppressed call
    not been made. *)
Theorem suppressed_call_leaves_no_trace (p : Process) (L : Z) (msg : string)
    (file : option string) (line : Z) (now : Now) (later : list Call) :
  L < log_level_ (instance p) ->
  instance (run later (call (Call_log L msg file line now) p))
    = instance (run later p) /\
  io (run later (call (Call_log L msg file line now) p)) = io (run later p).
Proof.
  intros HL. apply run_ext.
  - now rewrite call_instance.
  - cbn [call]. now rewrite macro_io, log_suppressed.
Qed.

Lemma suppressed_call_leaves_no_trace_witness :
  io (LOG_INFO "y" sample_now (LOG_DEBUG "x" sample_now startup))
    = io (LOG_INFO "y" sample_now startup).
Proof.
  apply (suppressed_call_leaves_no_trace startup DEBUG "x" None 0 sample_now
           (Call_log INFO "y" None 0 sample_now :: nil)).
  reflexivity.
Defined.
